(** * rag_multi frontend: session layer, chat panel and data panel

    A shallow embedding of [MULTI-AGENTS/frontend/src/auth.tsx] (the
    [AuthProvider] component with [login] and [logout]) and of the [App]
    module with its [ChatPanel] and [DataPanel] components.

    React state hooks become fields of one [World] record, together with
    [window.localStorage], the shared HTTP client of [./api] and the
    promises that are still waiting for the network.  Every handler of the
    source is a computation in a small state-and-rejection monad; the event
    loop is a [step] function over the events the page can receive. *)

From stdpp Require Import gmap list strings.
From Stdlib Require Import NArith.

Open Scope N_scope.

(** ** JavaScript values *)

Module JS.

(** A JavaScript string is a sequence of UTF-16 code units. *)
Abbreviation jsstring := (list N).

(** An ASCII literal of the source as code units. *)
Definition js (s : string) : jsstring :=
  Ascii.N_of_ascii <$> String.list_ascii_of_string s.

(** Truthiness of a string: only the empty string is falsy. *)
Definition truthy (s : jsstring) : bool :=
  match s with
  | [] => false
  | _ :: _ => true
  end.

(** Truthiness of [string | null] and of [string | undefined]. *)
Definition truthy_opt (v : option jsstring) : bool :=
  match v with
  | Some s => truthy s
  | None => false
  end.

(** [v || null] *)
Definition or_null (v : option jsstring) : option jsstring :=
  if truthy_opt v then v else None.

(** [v || d] for a string default [d] *)
Definition or_else (v : option jsstring) (d : jsstring) : jsstring :=
  match v with
  | Some s => if truthy s then s else d
  | None => d
  end.

(** ECMAScript WhiteSpace and LineTerminator code points, the ones
    [String.prototype.trim] strips. *)
Definition white_space : list N :=
  [ 9; 10; 11; 12; 13; 32; 160; 5760;
    8192; 8193; 8194; 8195; 8196; 8197; 8198; 8199; 8200; 8201; 8202;
    8232; 8233; 8239; 8287; 12288; 65279 ].

Definition is_white_space (c : N) : bool :=
  existsb (N.eqb c) white_space.

Fixpoint trimStart (s : jsstring) : jsstring :=
  match s with
  | [] => []
  | c :: s' => if is_white_space c then trimStart s' else s
  end.

Definition trimEnd (s : jsstring) : jsstring :=
  reverse (trimStart (reverse s)).

Definition trim (s : jsstring) : jsstring :=
  trimEnd (trimStart s).

End JS.
Import JS.

(** ** The shared HTTP client *)

Module Http.

Inductive Method := GET | POST.

(** A [File] picked in the file input. *)
Record File := { file_name : jsstring; file_bytes : list N }.

Inductive FormValue :=
| FormText (s : jsstring)
| FormFile (f : File).

(** What the caller hands to the client as request data. *)
Inductive Body :=
| NoBody
| URLSearchParams (fields : list (jsstring * jsstring))
| PlainObject (fields : list (jsstring * jsstring))
| FormData (parts : list (jsstring * FormValue)).

Inductive Encoding := FormUrlEncoded | Json | Multipart.

(** Modelled from the spec: the wire format the client of [./api], which
    is not among the sources, gives to request data.  A [URLSearchParams]
    goes out form-encoded ([application/x-www-form-urlencoded]), a plain
    object as JSON, a [FormData] as multipart. *)
Definition encoding (b : Body) : option Encoding :=
  match b with
  | NoBody => None
  | URLSearchParams _ => Some FormUrlEncoded
  | PlainObject _ => Some Json
  | FormData _ => Some Multipart
  end.

(** A request as it leaves the client: [authorization] is the token the
    client's default configuration held when the request was issued. *)
Record Request := {
  method : Method;
  url : jsstring;
  body : Body;
  headers : list (jsstring * jsstring);
  authorization : option jsstring
}.

(** The module-level client: its default authorization and, as a ghost
    trace, every request issued so far (a request's id is its position). *)
Record Api := {
  default_authorization : option jsstring;
  sent : list Request
}.

(** Modelled from the spec: [setAuth] of [./api], which is not among the
    sources.  It mirrors the Credential into the shared client's default
    authorization; [null] clears it. *)
Definition setAuth (t : option jsstring) (a : Api) : Api :=
  {| default_authorization := t; sent := sent a |}.

(** Modelled from the spec: a call on [api] of [./api].  The request
    carries the default authorization of the moment of the call. *)
Definition request (m : Method) (u : jsstring) (b : Body)
    (h : list (jsstring * jsstring)) (a : Api) : nat * Api :=
  (length (sent a),
   {| default_authorization := default_authorization a;
      sent := sent a ++ [ {| method := m; url := u; body := b; headers := h;
                             authorization := default_authorization a |} ] |}).

(** The reason a request promise rejects with. *)
Record AxiosError := {
  http_status : option N;
  detail : option jsstring
}.

Inductive Settled (A : Type) :=
| Fulfilled (data : A)
| Rejected (e : AxiosError).
Arguments Fulfilled {A} data.
Arguments Rejected {A} e.

End Http.
Import Http.

(** ** Types of the source *)

(** [type User] of auth.tsx *)
Record User := {
  username : jsstring;
  name : jsstring;
  email : jsstring;
  role : jsstring
}.

(** [AGENTS] and [type Agent] *)
Inductive Agent := comercial | soporte | documental.

Definition AGENTS : list Agent := [comercial; soporte; documental].

Definition agent_name (a : Agent) : jsstring :=
  match a with
  | comercial => js "comercial"
  | soporte => js "soporte"
  | documental => js "documental"
  end.

Inductive Role := role_user | role_assistant.

(** [type Msg] *)
Record Msg := { msg_role : Role; text : jsstring }.

(** Response payloads. *)
Record LoginData := { access_token : jsstring }.
Record AskData := { answer : jsstring }.
Record UploadData := { filename : jsstring; vector_store : jsstring }.

(** The handlers attached to a request that has not settled yet. *)
Inductive Continuation :=
| login_await        (* the rest of [login] after its [await] *)
| me_then_catch      (* [.then(r => setUser(r.data)).catch(() => logout())] *)
| send_await         (* the rest of [send] *)
| upload_await.      (* the rest of [upload] *)

(** ** The world *)

Record World := {
  localStorage : gmap jsstring jsstring;
  api : Api;
  (* AuthProvider *)
  token : option jsstring;
  user : option User;
  effect_deps : option (option jsstring);
  (* App *)
  agent : Agent;
  (* ChatPanel *)
  q : jsstring;
  loading : bool;
  msgs : list Msg;
  (* DataPanel *)
  file : option File;
  status : jsstring;
  (* promises in flight, by request id *)
  inflight : gmap nat Continuation
}.

Definition with_localStorage (f : gmap jsstring jsstring → gmap jsstring jsstring)
    (w : World) : World :=
  {| localStorage := f (localStorage w); api := api w; token := token w;
     user := user w; effect_deps := effect_deps w; agent := agent w; q := q w;
     loading := loading w; msgs := msgs w; file := file w; status := status w;
     inflight := inflight w |}.

Definition with_api (f : Api → Api) (w : World) : World :=
  {| localStorage := localStorage w; api := f (api w); token := token w;
     user := user w; effect_deps := effect_deps w; agent := agent w; q := q w;
     loading := loading w; msgs := msgs w; file := file w; status := status w;
     inflight := inflight w |}.

Definition with_token (v : option jsstring) (w : World) : World :=
  {| localStorage := localStorage w; api := api w; token := v;
     user := user w; effect_deps := effect_deps w; agent := agent w; q := q w;
     loading := loading w; msgs := msgs w; file := file w; status := status w;
     inflight := inflight w |}.

Definition with_user (v : option User) (w : World) : World :=
  {| localStorage := localStorage w; api := api w; token := token w;
     user := v; effect_deps := effect_deps w; agent := agent w; q := q w;
     loading := loading w; msgs := msgs w; file := file w; status := status w;
     inflight := inflight w |}.

Definition with_effect_deps (v : option (option jsstring)) (w : World) : World :=
  {| localStorage := localStorage w; api := api w; token := token w;
     user := user w; effect_deps := v; agent := agent w; q := q w;
     loading := loading w; msgs := msgs w; file := file w; status := status w;
     inflight := inflight w |}.

Definition with_agent (v : Agent) (w : World) : World :=
  {| localStorage := localStorage w; api := api w; token := token w;
     user := user w; effect_deps := effect_deps w; agent := v; q := q w;
     loading := loading w; msgs := msgs w; file := file w; status := status w;
     inflight := inflight w |}.

Definition with_q (v : jsstring) (w : World) : World :=
  {| localStorage := localStorage w; api := api w; token := token w;
     user := user w; effect_deps := effect_deps w; agent := agent w; q := v;
     loading := loading w; msgs := msgs w; file := file w; status := status w;
     inflight := inflight w |}.

Definition with_loading (v : bool) (w : World) : World :=
  {| localStorage := localStorage w; api := api w; token := token w;
     user := user w; effect_deps := effect_deps w; agent := agent w; q := q w;
     loading := v; msgs := msgs w; file := file w; status := status w;
     inflight := inflight w |}.

Definition with_msgs (f : list Msg → list Msg) (w : World) : World :=
  {| localStorage := localStorage w; api := api w; token := token w;
     user := user w; effect_deps := effect_deps w; agent := agent w; q := q w;
     loading := loading w; msgs := f (msgs w); file := file w; status := status w;
     inflight := inflight w |}.

Definition with_file (v : option File) (w : World) : World :=
  {| localStorage := localStorage w; api := api w; token := token w;
     user := user w; effect_deps := effect_deps w; agent := agent w; q := q w;
     loading := loading w; msgs := msgs w; file := v; status := status w;
     inflight := inflight w |}.

Definition with_status (v : jsstring) (w : World) : World :=
  {| localStorage := localStorage w; api := api w; token := token w;
     user := user w; effect_deps := effect_deps w; agent := agent w; q := q w;
     loading := loading w; msgs := msgs w; file := file w; status := v;
     inflight := inflight w |}.

Definition with_inflight (f : gmap nat Continuation → gmap nat Continuation)
    (w : World) : World :=
  {| localStorage := localStorage w; api := api w; token := token w;
     user := user w; effect_deps := effect_deps w; agent := agent w; q := q w;
     loading := loading w; msgs := msgs w; file := file w; status := status w;
     inflight := f (inflight w) |}.

(** ** Handlers as computations

    A handler runs on the world and either returns or throws (an [async]
    function then rejects its promise with the thrown reason). *)

Definition M (A : Type) : Type := World → Settled A * World.

Definition ret {A} (x : A) : M A := λ w, (Fulfilled x, w).

Definition throw {A} (e : AxiosError) : M A := λ w, (Rejected e, w).

Definition bind {A B} (c : M A) (k : A → M B) : M B :=
  λ w, match c w with
       | (Fulfilled x, w') => k x w'
       | (Rejected e, w') => (Rejected e, w')
       end.

Declare Scope handler_scope.
Delimit Scope handler_scope with handler.
Notation "'let!' x ':=' c 'in' k" :=
  (bind c (fun x => k))
  (at level 10, x name, c at level 100, k at level 200) : handler_scope.
Notation "c1 ';;' c2" :=
  (bind c1 (fun _ => c2))
  (at level 100, c2 at level 200, right associativity) : handler_scope.
Open Scope handler_scope.

Definition modify (f : World → World) : M unit := λ w, (Fulfilled tt, f w).

Definition gets {A} (f : World → A) : M A := λ w, (Fulfilled (f w), w).

(** The world a handler leaves behind. *)
Definition exec {A} (c : M A) (w : World) : World := snd (c w).

(** The value a handler returns, or the reason it throws. *)
Definition outcome {A} (c : M A) (w : World) : Settled A := fst (c w).

(** [await p] where [p] has settled with [r]. *)
Definition await {A} (r : Settled A) : M A :=
  match r with
  | Fulfilled x => ret x
  | Rejected e => throw e
  end.

(** State setters and browser calls. *)
Definition setToken (v : option jsstring) : M unit := modify (with_token v).
Definition setUser (v : option User) : M unit := modify (with_user v).
Definition setQ (v : jsstring) : M unit := modify (with_q v).
Definition setLoading (v : bool) : M unit := modify (with_loading v).
Definition setMsgs (f : list Msg → list Msg) : M unit := modify (with_msgs f).
Definition setFile (v : option File) : M unit := modify (with_file v).
Definition setStatus (v : jsstring) : M unit := modify (with_status v).
Definition setAgent (v : Agent) : M unit := modify (with_agent v).

Definition localStorage_setItem (k v : jsstring) : M unit :=
  modify (with_localStorage (insert k v)).
Definition localStorage_removeItem (k : jsstring) : M unit :=
  modify (with_localStorage (delete k)).

Definition api_setAuth (t : option jsstring) : M unit :=
  modify (with_api (setAuth t)).

(** [api.get] and [api.post]: issue the request, attach the handlers [k] to
    its promise, give back the request id. *)
Definition api_call (m : Method) (u : jsstring) (b : Body)
    (h : list (jsstring * jsstring)) (k : Continuation) : M nat :=
  λ w, let '(id, a) := request m u b h (api w) in
       (Fulfilled id,
        with_inflight (insert id k) (with_api (λ _, a) w)).

Definition api_get (u : jsstring) (k : Continuation) : M nat :=
  api_call GET u NoBody [] k.

Definition api_post (u : jsstring) (b : Body) (h : list (jsstring * jsstring))
    (k : Continuation) : M nat :=
  api_call POST u b h k.

(** ** AuthProvider (auth.tsx) *)

(** [function logout()] *)
Definition logout : M unit :=
  localStorage_removeItem (js "token");;
  setToken None;;
  setUser None.

(** The body of the [useEffect] of line 19. *)
Definition effect : M unit :=
  let! tok := gets token in
  api_setAuth (or_null tok);;
  if truthy_opt tok
  then let! _ := api_get (js "/auth/me") me_then_catch in ret tt
  else ret tt.

(** React runs an effect after the first render and after each render
    whose dependency array, here [[token]], differs from the one of the
    previous run. *)
Definition flush_effects : M unit :=
  let! tok := gets token in
  let! deps := gets effect_deps in
  if decide (deps = Some tok)
  then ret tt
  else modify (with_effect_deps (Some tok));; effect.

(** The handlers of the [/auth/me] promise. *)
Definition me_settled (r : Settled User) : M unit :=
  match r with
  | Fulfilled data => setUser (Some data)
  | Rejected _ => logout
  end.

(** [async function login(username, password)], up to its [await]. *)
Definition login_call (username password : jsstring) : M nat :=
  api_post (js "/auth/login")
    (URLSearchParams [(js "username", username); (js "password", password)])
    [] login_await.

(** The rest of [login], resumed when the request has settled with [r]. *)
Definition login_resume (r : Settled LoginData) : M unit :=
  let! data := await r in
  localStorage_setItem (js "token") (access_token data);;
  setToken (Some (access_token data)).

(** The state of a freshly mounted [AuthProvider]:
    [useState(localStorage.getItem('token'))] and [useState(null)]. *)
Definition initial_token (st : gmap jsstring jsstring) : option jsstring :=
  st !! js "token".

(** ** ChatPanel *)

(** The question the input starts with:
    [useState("Hola, ¿qué puedes hacer por mí?")] *)
Definition initial_q : jsstring :=
  js "Hola, " ++ [191] ++ js "qu" ++ [233] ++ js " puedes hacer por m" ++ [237]
  ++ js "?".

(** [async function send()], up to its [await]. *)
Definition send : M unit :=
  let! question := gets q in
  if negb (truthy (trim question))
  then ret tt
  else
    let userMsg := {| msg_role := role_user; text := question |} in
    setMsgs (λ m, m ++ [userMsg]);;
    setQ [];;
    setLoading true;;
    let! ag := gets agent in
    let! _ := api_post (js "/chat/ask")
                (PlainObject [(js "agent", agent_name ag);
                              (js "question", text userMsg)])
                [] send_await in
    ret tt.

(** The rest of [send]: the [try] after the [await], [catch] and
    [finally]. *)
Definition send_resume (r : Settled AskData) : M unit :=
  match r with
  | Fulfilled data =>
      let ans := {| msg_role := role_assistant; text := answer data |} in
      setMsgs (λ m, m ++ [ans])
  | Rejected e =>
      let ans := {| msg_role := role_assistant;
                    text := js "Error: "
                            ++ or_else (detail e) (js "no se pudo obtener respuesta") |} in
      setMsgs (λ m, m ++ [ans])
  end;;
  setLoading false.

(** ** DataPanel *)

(** [async function upload()], up to its [await]. *)
Definition upload : M unit :=
  let! picked := gets file in
  match picked with
  | None => ret tt
  | Some f =>
      let! ag := gets agent in
      let fd := FormData [(js "agent", FormText (agent_name ag));
                          (js "file", FormFile f)] in
      setStatus (js "Subiendo...");;
      let! _ := api_post (js "/vs/upload") fd
                  [(js "Content-Type", js "multipart/form-data")]
                  upload_await in
      ret tt
  end.

(** The rest of [upload]. *)
Definition upload_resume (r : Settled UploadData) : M unit :=
  match r with
  | Fulfilled data =>
      setStatus (js "OK: " ++ filename data ++ js " " ++ [8594] ++ js " "
                 ++ vector_store data)
  | Rejected e =>
      setStatus (js "Error: "
                 ++ or_else (detail e) (js "fall" ++ [243] ++ js " el upload"))
  end.

(** ** The event loop

    JavaScript runs one handler at a time.  [Render] stands for React
    committing a render and running the effects that are due; calls that
    one handler makes in a row ([logout()] then [login(..)]) happen with
    no [Render] in between.  A handler reads the current value of the
    hooks, as its closure is the one of the latest render. *)

Inductive Event :=
| Render                                          (* React commits, runs effects *)
| CallLogin (username password : jsstring)        (* a consumer calls [login] *)
| CallLogout                                      (* a consumer calls [logout] *)
| LoginSettled (id : nat) (r : Settled LoginData) (* POST /auth/login answers *)
| MeSettled (id : nat) (r : Settled User)         (* GET /auth/me answers *)
| SelectAgent (a : Agent)
| TypeQuestion (s : jsstring)
| ClickSend
| AskSettled (id : nat) (r : Settled AskData)     (* POST /chat/ask answers *)
| PickFile (f : option File)
| ClickUpload
| UploadSettled (id : nat) (r : Settled UploadData).

#[export] Instance Continuation_eq_dec : EqDecision Continuation.
Proof. solve_decision. Defined.

(** The promise of request [id] settles: its handlers [k] run once, and
    only if they are the ones attached to it. *)
Definition settle (id : nat) (k : Continuation) (c : M unit) : M unit :=
  let! waiting := gets inflight in
  if decide (waiting !! id = Some k)
  then modify (with_inflight (delete id));; c
  else ret tt.

Definition handle (e : Event) : M unit :=
  match e with
  | Render => flush_effects
  | CallLogin username password =>
      let! _ := login_call username password in ret tt
  | CallLogout => logout
  | LoginSettled id r => settle id login_await (login_resume r)
  | MeSettled id r => settle id me_then_catch (me_settled r)
  | SelectAgent a => setAgent a
  | TypeQuestion s => setQ s
  | ClickSend =>
      let! busy := gets loading in
      if busy then ret tt else send       (* [disabled={loading}] *)
  | AskSettled id r => settle id send_await (send_resume r)
  | PickFile f => setFile f
  | ClickUpload => upload
  | UploadSettled id r => settle id upload_await (upload_resume r)
  end.

Definition step (w : World) (e : Event) : World := exec (handle e) w.

Definition run (w : World) (es : list Event) : World := foldl step w es.

(** The page right after its first render, before any effect has run.
    [st] is what the browser's storage holds and [hdr] the default
    authorization the client module starts with. *)
Definition mount (st : gmap jsstring jsstring) (hdr : option jsstring) : World :=
  {| localStorage := st;
     api := {| default_authorization := hdr; sent := [] |};
     token := initial_token st;
     user := None;
     effect_deps := None;
     agent := comercial;
     q := initial_q;
     loading := false;
     msgs := [];
     file := None;
     status := [];
     inflight := ∅ |}.

Inductive reachable : World → Prop :=
| reachable_mount st hdr : reachable (mount st hdr)
| reachable_step w e : reachable w → reachable (step w e).

(** [login(username, password)] run to completion with nothing in
    between: the call, then the token endpoint's answer [r]. *)
Definition login (username password : jsstring) (r : Settled LoginData) : M unit :=
  let! id := login_call username password in
  modify (with_inflight (delete id));;
  login_resume r.

(** ** The spec's view of a session *)

Inductive SessionState := LoggedOut | Restoring | LoggedIn.

(** The states the design document names, read off the two hooks:
    [LoggedOut] is a null token, [LoggedIn] a token together with a user,
    and a token whose user is still missing is on the [Restoring] path.
    (Its [Authenticating] is [LoggedOut] with a login request in flight.)
    The source keeps no such variable; this is a view of the world. *)
Definition session_state (w : World) : SessionState :=
  match token w, user w with
  | None, _ => LoggedOut
  | Some _, None => Restoring
  | Some _, Some _ => LoggedIn
  end.

(** The client configuration mirrors the Credential. *)
Definition mirrored (w : World) : Prop :=
  default_authorization (api w) = or_null (token w).

(** The request an identity refresh for token [tok] issues. *)
Definition me_request (tok : jsstring) : Request :=
  {| method := GET; url := js "/auth/me"; body := NoBody; headers := [];
     authorization := Some tok |}.

(** The request [login] issues when the client holds [hdr]. *)
Definition login_request (username password : jsstring)
    (hdr : option jsstring) : Request :=
  {| method := POST; url := js "/auth/login";
     body := URLSearchParams [(js "username", username); (js "password", password)];
     headers := []; authorization := hdr |}.

(** ** Invariants of the event loop *)

(** The client's default authorization is what the last run of the effect
    left there. *)
Definition header_follows_effect (w : World) : Prop :=
  ∀ t, effect_deps w = Some t → default_authorization (api w) = or_null t.

(** Handlers of an identity refresh wait only on a GET [/auth/me] that
    carried a non-empty token. *)
Definition refresh_pending (w : World) : Prop :=
  ∀ id, inflight w !! id = Some me_then_catch →
        ∃ tok, sent (api w) !! id = Some (me_request tok) ∧ tok ≠ [].

(** ** App: the selected view

    [App] keeps [agent] and [tab] and renders
    [tab === "chat" ? <ChatPanel agent={agent} /> : <DataPanel agent={agent} />].
    The two branches are different components at the same place: when
    [tab] changes React unmounts the one and mounts the other, whose hooks
    start from their initial values; state setters of an unmounted
    component do nothing, so the handlers its requests still wait with are
    dead. *)

Inductive Tab := tab_chat | tab_datos.

#[export] Instance Tab_eq_dec : EqDecision Tab.
Proof. solve_decision. Defined.

(** The panel hooks after one panel was unmounted and the other mounted. *)
Definition remount_panel (w : World) : World :=
  {| localStorage := localStorage w; api := api w; token := token w;
     user := user w; effect_deps := effect_deps w; agent := agent w;
     q := initial_q; loading := false; msgs := []; file := None; status := [];
     inflight := filter (λ kv, kv.2 ≠ send_await ∧ kv.2 ≠ upload_await)
                   (inflight w) |}.

Record Page := { tab : Tab; world : World }.

(** [onClick={() => setTab(t)}]: setting the current value again changes
    nothing. *)
Definition setTab (t : Tab) (p : Page) : Page :=
  if decide (t = tab p) then p
  else {| tab := t; world := remount_panel (world p) |}.

(** [onChange={(e) => setFile(e.target.files?.[0] || null)}] *)
Definition onChange_file (files : option (list File)) : M unit :=
  setFile (files ≫= head).

Inductive PageEvent :=
| ClickTab (t : Tab)
| FilesChanged (files : option (list File))
| Ev (e : Event).

(** The controls of a panel exist only while the panel is mounted. *)
Definition enabled (t : Tab) (e : Event) : bool :=
  match e with
  | TypeQuestion _ | ClickSend => bool_decide (t = tab_chat)
  | PickFile _ | ClickUpload => bool_decide (t = tab_datos)
  | _ => true
  end.

Definition page_step (p : Page) (pe : PageEvent) : Page :=
  match pe with
  | ClickTab t => setTab t p
  | FilesChanged files =>
      if decide (tab p = tab_datos)
      then {| tab := tab p; world := exec (onChange_file files) (world p) |}
      else p
  | Ev e =>
      if enabled (tab p) e
      then {| tab := tab p; world := step (world p) e |}
      else p
  end.

Definition page_run (p : Page) (es : list PageEvent) : Page :=
  foldl page_step p es.

(** [useState<"chat" | "datos">("chat")] *)
Definition page_mount (st : gmap jsstring jsstring) (hdr : option jsstring) : Page :=
  {| tab := tab_chat; world := mount st hdr |}.

Inductive page_reachable : Page → Prop :=
| page_reachable_mount st hdr : page_reachable (page_mount st hdr)
| page_reachable_step p pe : page_reachable p → page_reachable (page_step p pe).

(** ** Requests and conversations *)

(** The request [send] issues for question [qn] to agent [a]. *)
Definition ask_request (a : Agent) (qn : jsstring) (hdr : option jsstring) : Request :=
  {| method := POST; url := js "/chat/ask";
     body := PlainObject [(js "agent", agent_name a); (js "question", qn)];
     headers := []; authorization := hdr |}.

(** The request [upload] issues for file [f] and agent [a]. *)
Definition upload_request (a : Agent) (f : File) (hdr : option jsstring) : Request :=
  {| method := POST; url := js "/vs/upload";
     body := FormData [(js "agent", FormText (agent_name a)); (js "file", FormFile f)];
     headers := [(js "Content-Type", js "multipart/form-data")];
     authorization := hdr |}.


(** The text [send] shows for an answer, and [upload] as status. *)
Definition reply_text (r : Settled AskData) : jsstring :=
  match r with
  | Fulfilled data => answer data
  | Rejected e =>
      js "Error: " ++ or_else (detail e) (js "no se pudo obtener respuesta")
  end.

Definition upload_status (r : Settled UploadData) : jsstring :=
  match r with
  | Fulfilled data =>
      js "OK: " ++ filename data ++ js " " ++ [8594] ++ js " " ++ vector_store data
  | Rejected e =>
      js "Error: " ++ or_else (detail e) (js "fall" ++ [243] ++ js " el upload")
  end.

(** Who speaks at position [i] of a conversation that alternates. *)
Definition turn (i : nat) : Role :=
  if Nat.even i then role_user else role_assistant.

Definition alternating (l : list Msg) : Prop :=
  msg_role <$> l = turn <$> seq 0 (length l).

(** Request [id] is a question whose answer the chat panel waits for. *)
Definition asking (w : World) (id : nat) : Prop :=
  inflight w !! id = Some send_await.

(** Handlers wait only on requests that were issued. *)
Definition handlers_wait_on_issued (w : World) : Prop :=
  ∀ id k, inflight w !! id = Some k → (id < length (sent (api w)))%nat.

(** The chat panel's bookkeeping: the messages alternate, ending with a
    question exactly while [loading]; and [loading] is true exactly while
    one question is asked. *)
Definition chat_consistent (w : World) : Prop :=
  handlers_wait_on_issued w ∧
  alternating (msgs w) ∧
  Nat.even (length (msgs w)) = negb (loading w) ∧
  (if loading w
   then ∃ id, asking w id ∧ ∀ id', asking w id' → id' = id
   else ∀ id, ¬ asking w id).

(** No panel handler waits on a request older than the [n]-th. *)
Definition panel_handlers_from (n : nat) (w : World) : Prop :=
  (n ≤ length (sent (api w)))%nat ∧
  ∀ id, (id < n)%nat →
        inflight w !! id ≠ Some send_await ∧ inflight w !! id ≠ Some upload_await.

(** Events of the panels, as opposed to those of the session. *)
Definition panel_event (e : Event) : bool :=
  match e with
  | SelectAgent _ | TypeQuestion _ | ClickSend | AskSettled _ _
  | PickFile _ | ClickUpload | UploadSettled _ _ => true
  | Render | CallLogin _ _ | CallLogout | LoginSettled _ _ | MeSettled _ _ => false
  end.


(** The persisted token is the token state. *)
Definition storage_matches_token (w : World) : Prop :=
  localStorage w !! js "token" = token w.

(** ** Sample data for the scenarios below *)

Definition alice : User :=
  {| username := js "alice"; name := js "Alice"; email := js "alice@example.com";
     role := js "user" |}.

Definition tok1 : LoginData := {| access_token := js "tok1" |}.


Definition unauthorized : AxiosError :=
  {| http_status := Some 401; detail := Some (js "Not authenticated") |}.

(** Storage holding the token ["abc"], and storage holding an empty one. *)
Definition storage_abc : gmap jsstring jsstring := {[ js "token" := js "abc" ]}.

Definition storage_empty : gmap jsstring jsstring := {[ js "token" := [] ]}.

(** A picked file and the answer of a successful upload of it. *)
Definition report : File :=
  {| file_name := js "report.pdf"; file_bytes := [37; 80; 68; 70] |}.

Definition uploaded_report : UploadData :=
  {| filename := js "report.pdf"; vector_store := js "vs_1" |}.

(** A page whose question box holds a space, a tab, a no-break space and
    a line feed. *)
Definition blank_world : World :=
  with_q [32; 9; 160; 10] (mount ∅ None).

(** * Properties *)

(** ** Facts about [trim] *)

Lemma trimStart_nil_iff (s : jsstring) :
  trimStart s = [] ↔ forallb is_white_space s = true.
Proof.
  induction s as [|c s IH]; simpl; [done|].
  destruct (is_white_space c) eqn:Hc; simpl; [exact IH|].
  split; intros H; discriminate H.
Qed.

Lemma forallb_reverse {A} (p : A → bool) (l : list A) :
  forallb p (reverse l) = forallb p l.
Proof.
  induction l as [|x l IH]; [done|].
  rewrite reverse_cons, forallb_app, IH. simpl.
  rewrite andb_true_r. apply andb_comm.
Qed.

Lemma trimEnd_nil_iff (s : jsstring) :
  trimEnd s = [] ↔ forallb is_white_space s = true.
Proof.
  unfold trimEnd. rewrite <- (forallb_reverse _ s), <- trimStart_nil_iff.
  split; intros H.
  - apply (f_equal reverse) in H. by rewrite reverse_involutive in H.
  - by rewrite H.
Qed.

Lemma trimStart_white_suffix (s : jsstring) :
  forallb is_white_space (trimStart s) = true → trimStart s = [].
Proof.
  induction s as [|c s IH]; simpl; [done|].
  destruct (is_white_space c) eqn:Hc; [exact IH|].
  simpl. rewrite Hc. discriminate.
Qed.

(** [trim] leaves nothing exactly when the string is empty or all white
    space. *)
Lemma trim_nil_iff (s : jsstring) :
  trim s = [] ↔ forallb is_white_space s = true.
Proof.
  unfold trim. rewrite trimEnd_nil_iff. split; intros H.
  - by apply trimStart_nil_iff, trimStart_white_suffix.
  - apply trimStart_nil_iff in H. by rewrite H.
Qed.

(** ** Unfolding handlers *)

Ltac handlers :=
  unfold step, exec, outcome, handle, flush_effects, effect, logout, login,
    login_call, login_resume, me_settled, send, send_resume, upload,
    upload_resume, settle, api_get, api_post, api_call, api_setAuth,
    localStorage_setItem, localStorage_removeItem, setToken, setUser, setQ,
    setLoading, setMsgs, setFile, setStatus, setAgent, await, modify, gets,
    bind, ret, throw in *.

(** ** ChatPanel and DataPanel guards *)

(** C9. When the question is empty or only white space, [send] returns at
    once and leaves the whole world as it was: no request to [/chat/ask],
    and [msgs], [q] and [loading] unchanged; the same holds for a click on
    the send button. *)
Theorem send_blank_question_is_noop (w : World) :
  q w = [] ∨ forallb is_white_space (q w) = true →
  send w = (Fulfilled tt, w) ∧
  step w ClickSend = w ∧
  sent (api (exec send w)) = sent (api w) ∧
  msgs (exec send w) = msgs w ∧
  q (exec send w) = q w ∧
  loading (exec send w) = loading w.
Proof.
  intros Hq.
  assert (Hblank : trim (q w) = []).
  { apply trim_nil_iff. destruct Hq as [-> | Hq]; [done | exact Hq]. }
  assert (Hsend : send w = (Fulfilled tt, w)).
  { unfold send, bind, gets. simpl. by rewrite Hblank. }
  assert (Hclick : step w ClickSend = w).
  { unfold step, exec, handle, bind, gets. simpl.
    destruct (loading w); [done | by rewrite Hsend]. }
  unfold exec. by rewrite Hsend.
Qed.

Lemma send_blank_question_is_noop_witness :
  send blank_world = (Fulfilled tt, blank_world) ∧
  sent (api (exec send blank_world)) = [].
Proof.
  assert (H : q blank_world = [] ∨ forallb is_white_space (q blank_world) = true).
  { right. reflexivity. }
  destruct (send_blank_question_is_noop blank_world H) as (Hs & _ & Hsent & _).
  split; [exact Hs | exact Hsent].
Defined.

(** C10. With no file selected, [upload] returns at once and leaves the
    whole world as it was: no request to [/vs/upload] and [status]
    unchanged. *)
Theorem upload_without_file_is_noop (w : World) :
  file w = None →
  upload w = (Fulfilled tt, w) ∧
  step w ClickUpload = w ∧
  sent (api (exec upload w)) = sent (api w) ∧
  status (exec upload w) = status w.
Proof.
  intros Hf.
  assert (Hup : upload w = (Fulfilled tt, w)).
  { unfold upload, bind, gets. simpl. by rewrite Hf. }
  unfold step, exec, handle. by rewrite Hup.
Qed.

Lemma upload_without_file_is_noop_witness :
  upload (mount ∅ None) = (Fulfilled tt, mount ∅ None).
Proof.
  apply (upload_without_file_is_noop (mount ∅ None)). reflexivity.
Defined.

(** The guards are exact: a question with a visible character is posted,
    and so is a picked file. *)
Lemma send_question_posts (w : World) :
  trim (q w) ≠ [] →
  let w' := exec send w in
  msgs w' = msgs w ++ [ {| msg_role := role_user; text := q w |} ] ∧
  q w' = [] ∧
  loading w' = true ∧
  sent (api w')
  = sent (api w)
    ++ [ {| method := POST; url := js "/chat/ask";
            body := PlainObject [(js "agent", agent_name (agent w));
                                 (js "question", q w)];
            headers := [];
            authorization := default_authorization (api w) |} ].
Proof.
  intros Hq. handlers. simpl.
  destruct (trim (q w)) as [|c s] eqn:Ht; [done|]. by simpl.
Qed.

Lemma upload_file_posts (w : World) (f : File) :
  file w = Some f →
  let w' := exec upload w in
  status w' = js "Subiendo..." ∧
  sent (api w')
  = sent (api w)
    ++ [ {| method := POST; url := js "/vs/upload";
            body := FormData [(js "agent", FormText (agent_name (agent w)));
                              (js "file", FormFile f)];
            headers := [(js "Content-Type", js "multipart/form-data")];
            authorization := default_authorization (api w) |} ].
Proof. intros Hf. handlers. simpl. rewrite Hf. by simpl. Qed.

(** ** logout *)

(** C6. From every world, [logout] returns normally and leaves token and
    user null and the storage key removed; it issues no request, neither
    itself nor through the effect it triggers; and a second [logout]
    changes nothing. *)
Theorem logout_clears_and_is_idempotent (w : World) :
  let w' := exec logout w in
  step w CallLogout = w' ∧
  outcome logout w = Fulfilled tt ∧
  token w' = None ∧
  user w' = None ∧
  localStorage w' !! js "token" = None ∧
  session_state w' = LoggedOut ∧
  sent (api w') = sent (api w) ∧
  inflight w' = inflight w ∧
  sent (api (step w' Render)) = sent (api w) ∧
  exec logout w' = w'.
Proof.
  handlers. simpl.
  repeat split; try done.
  - apply lookup_delete_eq.
  - by case_decide.
  - unfold with_localStorage, with_token, with_user. simpl.
    by rewrite delete_delete_eq.
Qed.

(** ** login *)

(** C7. Every call of [login] issues exactly one request, a POST to
    [/auth/login] whose data is a [URLSearchParams] of the username and the
    password: it goes out form-encoded, not as JSON. *)
Theorem login_posts_form_encoded (w : World) (username password : jsstring) :
  let w' := step w (CallLogin username password) in
  let r := login_request username password (default_authorization (api w)) in
  sent (api w') = sent (api w) ++ [r] ∧
  body r = URLSearchParams [(js "username", username); (js "password", password)] ∧
  encoding (body r) = Some FormUrlEncoded ∧
  encoding (body r) ≠ Some Json.
Proof. handlers. simpl. by repeat split. Qed.

(** The call itself, before the endpoint answers, touches neither the
    session nor the storage. *)
Lemma login_call_frame (w : World) (username password : jsstring) :
  let w' := exec (login_call username password) w in
  token w' = token w ∧ user w' = user w ∧ localStorage w' = localStorage w ∧
  effect_deps w' = effect_deps w ∧
  default_authorization (api w') = default_authorization (api w).
Proof. handlers. simpl. by repeat split. Qed.

(** C3. When the token endpoint rejects with [e], [login] rejects with the
    same [e] towards its caller; the token, the user and the storage are
    what they were before the call, however the rejection is scheduled; so
    a session that was logged out, with a null token, stays so. *)
Theorem login_rejected_raises_and_keeps_state
    (w : World) (username password : jsstring) (e : AxiosError) :
  token w = None →
  let w' := exec (login username password (Rejected e)) w in
  let w'' := step (step w (CallLogin username password))
               (LoginSettled (length (sent (api w))) (Rejected e)) in
  outcome (login username password (Rejected e)) w = Rejected e ∧
  (∀ v : World, login_resume (Rejected e) v = (Rejected e, v)) ∧
  w'' = w' ∧
  token w' = None ∧
  session_state w' = LoggedOut ∧
  user w' = user w ∧
  localStorage w' = localStorage w.
Proof.
  intros Htok. handlers. simpl.
  rewrite decide_True by apply lookup_insert_eq.
  simpl. unfold session_state. simpl. rewrite Htok.
  by repeat split.
Qed.

Lemma login_rejected_raises_and_keeps_state_witness :
  outcome (login (js "alice") (js "wrong") (Rejected unauthorized)) (mount ∅ None)
  = Rejected unauthorized ∧
  token (exec (login (js "alice") (js "wrong") (Rejected unauthorized))
           (mount ∅ None)) = None.
Proof.
  assert (H : token (mount ∅ None) = None) by reflexivity.
  destruct (login_rejected_raises_and_keeps_state (mount ∅ None)
              (js "alice") (js "wrong") unauthorized H)
    as (Hout & _ & _ & Htok & _).
  split; [exact Hout | exact Htok].
Defined.

(** The same frame without assuming a logged-out start: a rejected login
    leaves the session and the storage of any world untouched. *)
Lemma login_rejected_frame (w : World) (username password : jsstring)
    (e : AxiosError) :
  let w' := exec (login username password (Rejected e)) w in
  token w' = token w ∧ user w' = user w ∧ localStorage w' = localStorage w ∧
  session_state w' = session_state w.
Proof. handlers. simpl. by repeat split. Qed.

(** ** Invariants of reachable worlds *)

Ltac crunch := repeat (case_decide || case_match || simplify_eq/=).

Lemma truthy_opt_true (v : option jsstring) :
  truthy_opt v = true → ∃ tok, v = Some tok ∧ tok ≠ [] ∧ or_null v = Some tok.
Proof.
  destruct v as [[|c s]|]; simpl; try discriminate.
  intros _. by exists (c :: s).
Qed.

Lemma truthy_opt_false (v : option jsstring) :
  truthy_opt v = false → or_null v = None ∧ (v = None ∨ v = Some []).
Proof.
  destruct v as [[|c s]|]; simpl; try discriminate; intros _; unfold or_null;
    simpl; auto.
Qed.

Lemma header_follows_effect_step (w : World) (e : Event) :
  header_follows_effect w → header_follows_effect (step w e).
Proof.
  unfold header_follows_effect. intros IH t.
  destruct e; handlers; simpl; crunch; try (by apply IH).
  all: intros [= <-]; done.
Qed.

Lemma header_follows_effect_reachable (w : World) :
  reachable w → header_follows_effect w.
Proof.
  induction 1 as [st hdr | w e _ IH].
  - intros t. discriminate.
  - by apply header_follows_effect_step.
Qed.

Lemma refresh_pending_step (w : World) (e : Event) :
  refresh_pending w → refresh_pending (step w e).
Proof.
  unfold refresh_pending. intros IH id.
  destruct e; handlers; simpl; crunch; try (by apply IH).
  all: try (intros [_ Hid]%lookup_delete_Some; by apply IH).
  all: rewrite lookup_insert; case_decide as Hid; [subst id | ].
  all: try discriminate.
  all: try (intros (tok & Hr & Htok)%IH; exists tok; split; [|done];
            by apply lookup_app_l_Some).
  intros _.
  destruct (truthy_opt_true (token w)) as (tok & _ & Htok & ->); [done|].
  exists tok. split; [|done].
  by rewrite lookup_app_r, Nat.sub_diag.
Qed.

Lemma refresh_pending_reachable (w : World) :
  reachable w → refresh_pending w.
Proof.
  induction 1 as [st hdr | w e _ IH].
  - intros id. simpl. by rewrite lookup_empty.
  - by apply refresh_pending_step.
Qed.

(** Only a fulfilled identity refresh turns a null user into a user. *)
Lemma user_set_only_by_refresh (w : World) (e : Event) (u : User) :
  user w = None → user (step w e) = Some u →
  ∃ id, e = MeSettled id (Fulfilled u) ∧ inflight w !! id = Some me_then_catch.
Proof.
  intros Hnone.
  destruct e; handlers; simpl; crunch; try congruence.
  intros [= <-]. by eexists.
Qed.

Lemma reachable_run (w : World) (es : list Event) :
  reachable w → reachable (run w es).
Proof.
  revert w. induction es as [|e es IH]; intros w Hw; [exact Hw|].
  apply IH. by constructor.
Qed.

(** Neither handler writes any storage key but [token]. *)
Lemma storage_frame (w : World) (e : Event) (k : jsstring) :
  k ≠ js "token" → localStorage (step w e) !! k = localStorage w !! k.
Proof.
  intros Hk.
  destruct e; handlers; simpl; crunch; try done.
  all: by rewrite ?lookup_insert_ne, ?lookup_delete_ne.
Qed.

(** ** Identity *)

(** C8. A freshly mounted provider has a null user whatever the storage
    holds, a restored token included; no event writes a storage key other
    than [token]; and from a reachable world with a null user, the only
    event that makes the user non-null is the fulfilment of a GET
    [/auth/me] that was really issued, with a non-empty token: the user
    becomes the data of that answer. *)
Theorem identity_null_at_start_then_only_from_refresh
    (st : gmap jsstring jsstring) (hdr : option jsstring)
    (w : World) (e : Event) (u : User) :
  user (mount st hdr) = None ∧
  token (mount st hdr) = st !! js "token" ∧
  (∀ k, k ≠ js "token" → localStorage (step w e) !! k = localStorage w !! k) ∧
  (reachable w → user w = None → user (step w e) = Some u →
   ∃ id tok, e = MeSettled id (Fulfilled u) ∧
             sent (api w) !! id = Some (me_request tok) ∧ tok ≠ []).
Proof.
  repeat split; [intros k Hk; by apply storage_frame|].
  intros Hw Hnone Hsome.
  destruct (user_set_only_by_refresh w e u Hnone Hsome) as (id & -> & Hid).
  destruct (refresh_pending_reachable w Hw id Hid) as (tok & Hr & Htok).
  by exists id, tok.
Qed.

Lemma identity_null_at_start_then_only_from_refresh_witness :
  ∃ id tok,
    MeSettled 0 (Fulfilled alice) = MeSettled id (Fulfilled alice) ∧
    sent (api (step (mount storage_abc None) Render)) !! id
    = Some (me_request tok) ∧ tok ≠ [].
Proof.
  apply (identity_null_at_start_then_only_from_refresh storage_abc None
           (step (mount storage_abc None) Render)
           (MeSettled 0 (Fulfilled alice)) alice).
  - apply reachable_step, reachable_mount.
  - reflexivity.
  - vm_compute. reflexivity.
Defined.

(** X16. When an identity refresh is rejected, its handlers call [logout]
    whatever the token is by then: token and user are null and the storage
    key is gone. *)
Lemma refresh_rejected_logs_out (w : World) (id : nat) (e : AxiosError) :
  inflight w !! id = Some me_then_catch →
  let w' := step w (MeSettled id (Rejected e)) in
  token w' = None ∧ user w' = None ∧
  localStorage w' !! js "token" = None ∧ session_state w' = LoggedOut.
Proof.
  intros Hid. handlers. simpl. rewrite decide_True by done. simpl.
  repeat split. apply lookup_delete_eq.
Qed.

(** X17. Every event but a fulfilled identity refresh keeps "a user only
    with a token". *)
Lemma identity_implies_credential_step (w : World) (e : Event) :
  (∀ id u, e ≠ MeSettled id (Fulfilled u)) →
  (user w ≠ None → token w ≠ None) →
  user (step w e) ≠ None → token (step w e) ≠ None.
Proof.
  intros He.
  destruct e; handlers; simpl; crunch; try done.
  by destruct (He id data).
Qed.

(** C1. The fulfilment handler of the identity refresh sets the user
    without looking at the token.  Storage holds ["abc"]; the effect issues
    the refresh; [logout] is called while it is in flight; the refresh then
    answers: the reachable world has a user and no token. *)
Theorem stale_refresh_sets_user_after_logout :
  let w := run (mount storage_abc None)
             [Render; CallLogout; Render; MeSettled 0 (Fulfilled alice)] in
  reachable w ∧
  token w = None ∧
  user w = Some alice ∧
  localStorage w !! js "token" = None ∧
  sent (api w) = [me_request (js "abc")] ∧
  ¬ (user w ≠ None → token w ≠ None).
Proof.
  split; [apply reachable_run, reachable_mount|].
  vm_compute. repeat split; try done.
  intros H. by apply H.
Qed.

(** ** The client's authorization *)

(** The requests a render makes the effect issue. *)
Lemma render_sent (w : World) :
  sent (api (step w Render))
  = sent (api w)
    ++ (if decide (effect_deps w = Some (token w)) then []
        else match or_null (token w) with
             | Some tok => [me_request tok]
             | None => []
             end).
Proof.
  handlers. simpl. case_decide; simpl; [by rewrite app_nil_r|].
  destruct (truthy_opt (token w)) eqn:Ht.
  - destruct (truthy_opt_true _ Ht) as (tok & _ & _ & ->). done.
  - destruct (truthy_opt_false _ Ht) as [-> _]. simpl. by rewrite app_nil_r.
Qed.

(** C2, as the code has it.  In a reachable world, once React has run the
    effect for the current token the client's authorization is that token
    (none for a null or empty one); the effect writes it before it issues
    the identity refresh, which is the only request it issues and carries
    that very token; and any request issued from then on carries it too.
    Nothing is said of a request issued after the token changed and before
    the effect ran. *)
Theorem effect_mirrors_credential_before_refresh (w : World) :
  reachable w →
  let w' := step w Render in
  (effect_deps w = Some (token w) → mirrored w) ∧
  mirrored w' ∧
  token w' = token w ∧
  effect_deps w' = Some (token w') ∧
  sent (api w')
  = sent (api w)
    ++ (if decide (effect_deps w = Some (token w)) then []
        else match or_null (token w) with
             | Some tok => [me_request tok]
             | None => []
             end) ∧
  (∀ m u b h k,
     sent (api (exec (api_call m u b h k) w'))
     = sent (api w')
       ++ [ {| method := m; url := u; body := b; headers := h;
               authorization := or_null (token w') |} ]).
Proof.
  intros Hw. pose proof (header_follows_effect_reachable w Hw) as Hinv.
  assert (Hm : mirrored (step w Render)).
  { unfold mirrored. handlers. simpl. case_decide; simpl; [by apply Hinv|].
    by destruct (truthy_opt (token w)). }
  assert (Ht : token (step w Render) = token w).
  { handlers. simpl. case_decide; simpl; [done|].
    by destruct (truthy_opt (token w)). }
  repeat split.
  - intros Hd. by apply Hinv.
  - exact Hm.
  - exact Ht.
  - rewrite Ht. handlers. simpl. case_decide; simpl; [done|].
    by destruct (truthy_opt (token w)).
  - apply render_sent.
  - intros m u b h k. unfold mirrored in Hm.
    unfold exec, api_call, request. simpl. by rewrite Hm.
Qed.

Lemma effect_mirrors_credential_before_refresh_witness :
  mirrored (step (mount storage_abc None) Render) ∧
  sent (api (step (mount storage_abc None) Render)) = [me_request (js "abc")].
Proof.
  destruct (effect_mirrors_credential_before_refresh (mount storage_abc None)
              (reachable_mount storage_abc None))
    as (_ & Hm & _ & _ & Hs & _).
  split; [exact Hm | exact Hs].
Defined.

(** C2 as stated fails: a session is logged in with ["tok1"]; a handler
    calls [logout()] and then [login("bob", "pw2")].  [logout] only changes
    state, the effect that would clear the client has not run yet: the
    token is null and the login request carries ["tok1"]. *)
Lemma request_after_logout_carries_stale_token :
  let w := run (mount ∅ None)
             [Render; CallLogin (js "alice") (js "pw1");
              LoginSettled 0 (Fulfilled tok1); Render;
              MeSettled 1 (Fulfilled alice); CallLogout] in
  reachable w ∧
  token w = None ∧
  default_authorization (api w) = Some (js "tok1") ∧
  ¬ mirrored w ∧
  sent (api (step w (CallLogin (js "bob") (js "pw2"))))
  = sent (api w) ++ [login_request (js "bob") (js "pw2") (Some (js "tok1"))].
Proof.
  split; [apply reachable_run, reachable_mount|].
  vm_compute. by repeat split.
Qed.

(** The same window seen from the chat panel: a question sent after
    [logout] and before the effect has run goes out with the old token. *)
Lemma chat_request_before_effect_carries_previous_token :
  let w := run (mount ∅ None)
             [Render; CallLogin (js "alice") (js "pw1");
              LoginSettled 0 (Fulfilled tok1); Render;
              MeSettled 1 (Fulfilled alice); CallLogout; ClickSend] in
  token w = None ∧
  authorization <$> last (sent (api w)) = Some (Some (js "tok1")) ∧
  url <$> last (sent (api w)) = Some (js "/chat/ask").
Proof. vm_compute. by repeat split. Qed.

(** ** Successful login *)



(** Why the third part asks for the token to be still in place: storage
    holds ["old"], whose refresh is in flight when a login succeeds with
    ["tok1"]; the old refresh is then rejected and logs the new session
    out, and the answer to the new refresh finds no token. *)
Lemma older_refresh_rejected_after_login :
  let w := run (mount {[ js "token" := js "old" ]} None)
             [Render; CallLogin (js "alice") (js "pw1");
              LoginSettled 1 (Fulfilled tok1); Render;
              MeSettled 0 (Rejected unauthorized);
              MeSettled 2 (Fulfilled alice)] in
  reachable w ∧ token w = None ∧ user w = Some alice ∧
  session_state w = LoggedOut.
Proof.
  split; [apply reachable_run, reachable_mount|].
  vm_compute. by repeat split.
Qed.


(** Likewise when the backend returns the token the effect last ran for:
    the dependency array is unchanged, the effect does not run, and no
    identity refresh is issued. *)
Lemma login_with_same_token_skips_refresh :
  let w0 := run (mount storage_abc None) [Render; MeSettled 0 (Fulfilled alice)] in
  let w := run w0 [CallLogin (js "alice") (js "pw1");
                   LoginSettled 1 (Fulfilled {| access_token := js "abc" |});
                   Render] in
  token w = Some (js "abc") ∧
  sent (api w) = sent (api w0) ++ [login_request (js "alice") (js "pw1") (Some (js "abc"))].
Proof. vm_compute. by repeat split. Qed.

(** ** Restoring at startup *)

(** C5, as the code has it.  Storage holds a non-empty token at mount: the
    token state starts as that token, the first effect issues the identity
    refresh carrying it.  If the refresh is fulfilled with [usr] the session
    is logged in with that user; if it is rejected the session is logged
    out, the storage key is removed and the next effect clears the client's
    authorization. *)
Theorem restore_persisted_token
    (st : gmap jsstring jsstring) (hdr : option jsstring) (tok : jsstring)
    (usr : User) (e : AxiosError) :
  st !! js "token" = Some tok →
  tok ≠ [] →
  let w0 := mount st hdr in
  let w1 := step w0 Render in
  let accepted := step w1 (MeSettled 0 (Fulfilled usr)) in
  let rejected := step w1 (MeSettled 0 (Rejected e)) in
  token w0 = Some tok ∧
  session_state w0 = Restoring ∧
  sent (api w1) = [me_request tok] ∧
  (token accepted = Some tok ∧ user accepted = Some usr ∧
   session_state accepted = LoggedIn ∧
   localStorage accepted !! js "token" = Some tok) ∧
  (token rejected = None ∧ user rejected = None ∧
   session_state rejected = LoggedOut ∧
   localStorage rejected !! js "token" = None ∧
   sent (api (step rejected Render)) = [me_request tok] ∧
   default_authorization (api (step rejected Render)) = None).
Proof.
  intros Hst Htok. destruct tok as [|c tok]; [done|].
  unfold mount, initial_token. rewrite Hst.
  handlers. unfold session_state. simpl.
  rewrite !decide_True by apply lookup_insert_eq. simpl.
  repeat split; try done.
  apply lookup_delete_eq.
Qed.

Lemma restore_persisted_token_witness :
  let w1 := step (mount storage_abc None) Render in
  session_state (step w1 (MeSettled 0 (Fulfilled alice))) = LoggedIn ∧
  session_state (step w1 (MeSettled 0 (Rejected unauthorized))) = LoggedOut ∧
  localStorage (step w1 (MeSettled 0 (Rejected unauthorized))) !! js "token" = None.
Proof.
  assert (H1 : storage_abc !! js "token" = Some (js "abc")) by reflexivity.
  assert (H2 : js "abc" ≠ []) by (vm_compute; discriminate).
  destruct (restore_persisted_token storage_abc None (js "abc") alice
              unauthorized H1 H2)
    as (_ & _ & _ & (_ & _ & Hin & _) & (_ & _ & Hout & Hgone & _)).
  split; [exact Hin | split; [exact Hout | exact Hgone]].
Defined.

(** C5 as stated fails when the persisted token is the empty string: the
    token state starts non-null, but the effect's [if (token)] skips the
    identity refresh; the session is neither logged in nor logged out, the
    storage keeps its entry, and rendering again changes nothing. *)
Lemma restore_empty_token_skips_refresh :
  let w0 := mount storage_empty None in
  let w := step w0 Render in
  localStorage w0 !! js "token" = Some [] ∧
  token w = Some [] ∧
  sent (api w) = [] ∧
  inflight w = ∅ ∧
  user w = None ∧
  session_state w = Restoring ∧
  localStorage w !! js "token" = Some [] ∧
  step w Render = w ∧
  (∀ id r, step w (MeSettled id r) = w).
Proof. vm_compute. by repeat split. Qed.

(** * Further properties of the page *)

(** ** Induction over reachable worlds and pages *)

Lemma reachable_invariant (I : World → Prop) :
  (∀ st hdr, I (mount st hdr)) →
  (∀ w e, I w → I (step w e)) →
  ∀ w, reachable w → I w.
Proof. intros Hm Hs w Hw. induction Hw; auto. Qed.

Lemma page_reachable_invariant (I : World → Prop) :
  (∀ st hdr, I (mount st hdr)) →
  (∀ w e, I w → I (step w e)) →
  (∀ w, I w → I (remount_panel w)) →
  (∀ w files, I w → I (exec (onChange_file files) w)) →
  ∀ p, page_reachable p → I (world p).
Proof.
  intros Hm Hs Hr Hf p Hp. induction Hp as [st hdr | p pe _ IH]; [apply Hm|].
  destruct pe as [t | files | e]; simpl.
  - unfold setTab. case_decide; simpl; auto.
  - case_decide; simpl; auto.
  - destruct (enabled (tab p) e); simpl; auto.
Qed.

Lemma page_reachable_run (p : Page) (es : list PageEvent) :
  page_reachable p → page_reachable (page_run p es).
Proof.
  revert p. induction es as [|e es IH]; intros p Hp; [exact Hp|].
  apply IH. by constructor.
Qed.

(** ** The persisted token *)

Lemma storage_matches_token_step (w : World) (e : Event) :
  storage_matches_token w → storage_matches_token (step w e).
Proof.
  unfold storage_matches_token. intros IH.
  destruct e; handlers; simpl; crunch; try done.
  all: try apply lookup_insert_eq; try apply lookup_delete_eq.
Qed.

(** X1. In every reachable world the token kept under [token] in the
    storage is the token state: both absent, or both the same string.  A
    reload of the page therefore starts from the session it left. *)
Theorem persisted_token_is_token_state (w : World) :
  reachable w →
  localStorage w !! js "token" = token w ∧
  initial_token (localStorage w) = token w.
Proof.
  intros Hw. split; revert w Hw.
  all: apply (reachable_invariant storage_matches_token);
    [done | apply storage_matches_token_step].
Qed.

Lemma persisted_token_is_token_state_witness :
  let w := run (mount ∅ None)
             [Render; CallLogin (js "alice") (js "pw1");
              LoginSettled 0 (Fulfilled tok1)] in
  localStorage w !! js "token" = token w.
Proof.
  apply (persisted_token_is_token_state
           (run (mount ∅ None)
              [Render; CallLogin (js "alice") (js "pw1");
               LoginSettled 0 (Fulfilled tok1)])).
  apply reachable_run, reachable_mount.
Defined.

(** ** The requests the page issues *)





(** ** The chat panel's bookkeeping *)

Lemma handlers_wait_on_issued_step (w : World) (e : Event) :
  handlers_wait_on_issued w → handlers_wait_on_issued (step w e).
Proof.
  unfold handlers_wait_on_issued. intros IH id k.
  destruct e; handlers; simpl; crunch; try (by apply IH).
  all: try (intros [_ Hid]%lookup_delete_Some; by eapply IH).
  all: rewrite length_app, lookup_insert; simpl; case_decide; [lia|].
  all: intros Hid%IH; lia.
Qed.

Lemma alternating_snoc (l : list Msg) (m : Msg) :
  alternating l → msg_role m = turn (length l) → alternating (l ++ [m]).
Proof.
  unfold alternating. intros Hl Hm.
  rewrite fmap_app, length_app. simpl. rewrite Nat.add_1_r.
  rewrite seq_S, fmap_app, Hl. simpl. by rewrite Hm.
Qed.

(** Events other than a click on send and an answer to a question leave
    the chat panel's hooks and the questions in flight as they are. *)
Lemma step_chat_frame (w : World) (e : Event) :
  handlers_wait_on_issued w →
  e ≠ ClickSend → (∀ id r, e ≠ AskSettled id r) →
  msgs (step w e) = msgs w ∧ loading (step w e) = loading w ∧
  ∀ id, asking (step w e) id ↔ asking w id.
Proof.
  unfold handlers_wait_on_issued, asking. intros Hb Hs Ha.
  destruct e; try done; try (by destruct (Ha id r)).
  all: handlers; simpl; crunch; repeat split; try done.
  all: try (by intros [_ Hid]%lookup_delete_Some).
  all: try (rewrite lookup_insert; case_decide; [discriminate | done]).
  all: intros Hid.
  all: try (rewrite lookup_insert_ne; [done|]; intros <-; apply Hb in Hid; lia).
  all: rewrite lookup_delete_ne; [done|]; intros ->; congruence.
Qed.

Lemma chat_consistent_step (w : World) (e : Event) :
  chat_consistent w → chat_consistent (step w e).
Proof.
  intros (Hb & Ha & Hp & Hq).
  split; [by apply handlers_wait_on_issued_step|].
  destruct e.
  all: try (match goal with |- context [step _ ?e] =>
              destruct (step_chat_frame w e Hb) as (-> & -> & Hiff); [done..|]
            end;
            split; [done|]; split; [done|];
            revert Hq; destruct (loading w); intros Hq;
            [destruct Hq as (id0 & H0 & Hu); exists id0; split;
               [by apply Hiff | intros id' Hid'; by apply Hu, Hiff]
            | intros id0 Hid0; by apply (Hq id0), Hiff]).
  - (* ClickSend *)
    unfold asking in *. handlers. simpl. revert Hp Hq.
    destruct (loading w) eqn:Hl; intros Hp Hq; simpl.
    { rewrite Hl. by split_and!. }
    destruct (truthy (trim (q w))) eqn:Hq'; simpl; [|rewrite Hl; by split_and!].
    repeat split.
    + apply alternating_snoc; [done|]. unfold turn. by rewrite Hp.
    + rewrite length_app. simpl. rewrite Nat.add_1_r, Nat.even_succ.
      by rewrite <- Nat.negb_even, Hp.
    + exists (length (sent (api w))). split; [apply lookup_insert_eq|].
      intros id'. rewrite lookup_insert. case_decide; [done|].
      intros Hid. by destruct (Hq id').
  - (* AskSettled *)
    unfold asking in *. handlers. simpl.
    case_decide as Hid; simpl; [|done]. revert Hp Hq.
    destruct (loading w) eqn:Hl; intros Hp Hq; [|by destruct (Hq id)].
    destruct Hq as (id0 & H0 & Hu).
    assert (Hmsgs : ∀ m, msg_role m = role_assistant →
              alternating (msgs w ++ [m]) ∧
              Nat.even (length (msgs w ++ [m])) = true).
    { intros m Hm. split.
      - apply alternating_snoc; [done|]. unfold turn. by rewrite Hp.
      - rewrite length_app. simpl. rewrite Nat.add_1_r, Nat.even_succ.
        by rewrite <- Nat.negb_even, Hp. }
    destruct r as [data | err]; simpl.
    all: split; [by apply Hmsgs|]; split; [by apply Hmsgs|].
    all: intros id' [Hne Hid']%lookup_delete_Some.
    all: apply Hne; by rewrite (Hu id'), (Hu id).
Qed.

Lemma chat_consistent_mount st hdr : chat_consistent (mount st hdr).
Proof.
  split_and!; try done.
Qed.

Lemma chat_consistent_remount (w : World) :
  chat_consistent w → chat_consistent (remount_panel w).
Proof.
  intros (Hb & _). split_and!; try done.
  - intros id k [Hid _]%map_lookup_filter_Some. by eapply Hb.
  - intros id [_ [Hk _]]%map_lookup_filter_Some. by apply Hk.
Qed.

Lemma chat_consistent_onChange_file (w : World) files :
  chat_consistent w → chat_consistent (exec (onChange_file files) w).
Proof. done. Qed.

Lemma chat_consistent_page (p : Page) :
  page_reachable p → chat_consistent (world p).
Proof.
  apply (page_reachable_invariant chat_consistent).
  - apply chat_consistent_mount.
  - apply chat_consistent_step.
  - apply chat_consistent_remount.
  - apply chat_consistent_onChange_file.
Qed.

Lemma page_eta (p : Page) : {| tab := tab p; world := world p |} = p.
Proof. by destruct p. Qed.





(** What X3 does not count: a question is asked, the view is switched
    away and back, and a second question is asked.  Both requests are on
    the network; the panel waits only on the second, and the first answer
    is dropped when it arrives. *)
Lemma question_from_before_a_switch_is_not_counted :
  let p0 := page_run (page_mount ∅ None)
              [Ev ClickSend; ClickTab tab_datos; ClickTab tab_chat] in
  let p := page_run p0 [Ev ClickSend] in
  page_reachable p ∧
  loading (world p0) = false ∧
  url <$> sent (api (world p)) = [js "/chat/ask"; js "/chat/ask"] ∧
  ¬ asking (world p) 0 ∧ asking (world p) 1 ∧
  page_step p (Ev (AskSettled 0 (Fulfilled {| answer := js "hola" |}))) = p.
Proof.
  split; [apply page_reachable_run, page_reachable_run, page_reachable_mount|].
  vm_compute. by repeat split.
Qed.

(** X4. On every reachable page the messages alternate: a question of the
    user at every even position, an answer of the assistant (or its error
    text) at every odd one; and the list ends with a question that has no
    answer yet exactly while [loading]. *)
Theorem conversation_alternates (p : Page) :
  page_reachable p →
  (∀ i m, msgs (world p) !! i = Some m → msg_role m = turn i) ∧
  Nat.even (length (msgs (world p))) = negb (loading (world p)).
Proof.
  intros (_ & Ha & Hp & _)%chat_consistent_page. split; [|done].
  intros i m Hm.
  assert (Hi : (i < length (msgs (world p)))%nat) by by eapply lookup_lt_Some.
  apply (f_equal (λ l, l !! i)) in Ha.
  rewrite !list_lookup_fmap, Hm, lookup_seq_lt in Ha by done.
  simpl in Ha. congruence.
Qed.

Lemma conversation_alternates_witness :
  let p := page_run (page_mount ∅ None)
             [Ev ClickSend; Ev (AskSettled 0 (Rejected unauthorized))] in
  Nat.even (length (msgs (world p))) = negb (loading (world p)).
Proof.
  apply (conversation_alternates
           (page_run (page_mount ∅ None)
              [Ev ClickSend; Ev (AskSettled 0 (Rejected unauthorized))])).
  apply page_reachable_run, page_reachable_mount.
Defined.

#[local] Arguments js : simpl never.

(** ** A question and its answer *)

(** X5. When the panel is idle and the question has a visible character,
    a click on send followed by the answer of [/chat/ask] adds exactly
    two messages, the question as typed (not trimmed) and the answer, or
    ["Error: "] with the server's detail or the built-in text; the input
    is emptied, one request was issued, and [loading] is true in between
    and false afterwards, for a rejection as for an answer. *)
Theorem question_then_answer (w : World) (r : Settled AskData) :
  loading w = false →
  trim (q w) ≠ [] →
  let id := length (sent (api w)) in
  let w1 := step w ClickSend in
  let w2 := step w1 (AskSettled id r) in
  loading w1 = true ∧
  asking w1 id ∧
  sent (api w2)
  = sent (api w) ++ [ask_request (agent w) (q w) (default_authorization (api w))] ∧
  msgs w2 = msgs w ++ [ {| msg_role := role_user; text := q w |};
                        {| msg_role := role_assistant; text := reply_text r |} ] ∧
  q w2 = [] ∧
  loading w2 = false ∧
  ¬ asking w2 id.
Proof.
  intros Hl Hq. unfold asking. handlers. simpl. rewrite Hl. simpl.
  destruct (trim (q w)) as [|c s] eqn:Ht; [done|]. simpl.
  rewrite decide_True by apply lookup_insert_eq. simpl.
  split_and!; try done; try apply lookup_insert_eq.
  all: destruct r; simpl; by rewrite <- ?app_assoc, ?lookup_delete_eq.
Qed.

Lemma question_then_answer_witness :
  msgs (run (mount ∅ None) [ClickSend; AskSettled 0 (Rejected unauthorized)])
  = [ {| msg_role := role_user; text := initial_q |};
      {| msg_role := role_assistant;
         text := js "Error: Not authenticated" |} ].
Proof.
  assert (H1 : loading (mount ∅ None) = false) by reflexivity.
  assert (H2 : trim (q (mount ∅ None)) ≠ []) by (vm_compute; discriminate).
  destruct (question_then_answer (mount ∅ None) (Rejected unauthorized) H1 H2)
    as (_ & _ & _ & Hm & _).
  exact Hm.
Defined.

(** ** Uploads *)

(** X6. With a file selected, a click on upload sets the status to
    ["Subiendo..."] and posts the file with the selected agent as multipart
    form data; the answer replaces the status by ["OK: <filename> ->
    <vector_store>"] (with the arrow U+2192) or by ["Error: "] and the
    detail or built-in text.  The file stays selected and the chat hooks
    are not touched. *)
Theorem upload_then_answer (w : World) (f : File) (r : Settled UploadData) :
  file w = Some f →
  let id := length (sent (api w)) in
  let w1 := step w ClickUpload in
  let w2 := step w1 (UploadSettled id r) in
  status w1 = js "Subiendo..." ∧
  sent (api w2)
  = sent (api w) ++ [upload_request (agent w) f (default_authorization (api w))] ∧
  encoding (body (upload_request (agent w) f (default_authorization (api w))))
  = Some Multipart ∧
  status w2 = upload_status r ∧
  file w2 = Some f ∧
  msgs w2 = msgs w ∧ q w2 = q w ∧ loading w2 = loading w.
Proof.
  intros Hf. handlers. simpl. rewrite Hf. simpl.
  rewrite decide_True by apply lookup_insert_eq. simpl.
  by destruct r.
Qed.

Lemma upload_then_answer_witness :
  status (run (mount ∅ None)
            [PickFile (Some report); ClickUpload;
             UploadSettled 0 (Fulfilled uploaded_report)])
  = js "OK: report.pdf " ++ [8594] ++ js " vs_1".
Proof.
  assert (H : file (step (mount ∅ None) (PickFile (Some report))) = Some report)
    by reflexivity.
  destruct (upload_then_answer (step (mount ∅ None) (PickFile (Some report)))
              report (Fulfilled uploaded_report) H)
    as (_ & _ & _ & Hs & _).
  exact Hs.
Defined.

(** X7. The upload button has no guard: uploads can overlap, and when
    two are in flight the status ends as the text of whichever answer
    arrives last, whichever upload was started first. *)
Theorem upload_status_is_last_answer
    (w : World) (i j : nat) (ri rj : Settled UploadData) :
  i ≠ j →
  inflight w !! i = Some upload_await →
  inflight w !! j = Some upload_await →
  status (step (step w (UploadSettled i ri)) (UploadSettled j rj)) = upload_status rj ∧
  status (step (step w (UploadSettled j rj)) (UploadSettled i ri)) = upload_status ri.
Proof.
  intros Hij Hi Hj. handlers. simpl.
  destruct (decide (inflight w !! i = Some upload_await)) as [_|]; [|done].
  destruct (decide (inflight w !! j = Some upload_await)) as [_|]; [|done].
  destruct ri, rj; simpl.
  all: rewrite !decide_True by (by rewrite lookup_delete_ne); by simpl.
Qed.

Lemma upload_status_is_last_answer_witness :
  let w := run (mount ∅ None) [PickFile (Some report); ClickUpload; ClickUpload] in
  status (run w [UploadSettled 1 (Fulfilled uploaded_report);
                 UploadSettled 0 (Rejected unauthorized)])
  = js "Error: Not authenticated".
Proof.
  assert (H : (0 ≠ 1)%nat) by lia.
  destruct (upload_status_is_last_answer
              (run (mount ∅ None) [PickFile (Some report); ClickUpload; ClickUpload])
              0 1 (Rejected unauthorized) (Fulfilled uploaded_report) H)
    as [_ Hs]; [reflexivity | reflexivity |].
  exact Hs.
Defined.

(** ** Switching views *)

(** X8. A click on the tab that is shown changes nothing.  A click on the
    other tab swaps the panels: question box, messages, [loading], picked
    file and status are back at their initial values, while the selected
    agent, the session, the storage and the HTTP client are kept; and the
    handlers of the questions and uploads still in flight are gone, so
    their answers change nothing. *)
Theorem switching_view_resets_panels (p : Page) (t : Tab) :
  t ≠ tab p →
  let p' := page_step p (ClickTab t) in
  page_step p (ClickTab (tab p)) = p ∧
  tab p' = t ∧
  q (world p') = initial_q ∧ msgs (world p') = [] ∧ loading (world p') = false ∧
  file (world p') = None ∧ status (world p') = [] ∧
  agent (world p') = agent (world p) ∧
  token (world p') = token (world p) ∧ user (world p') = user (world p) ∧
  localStorage (world p') = localStorage (world p) ∧
  api (world p') = api (world p) ∧
  (∀ id r, page_step p' (Ev (AskSettled id r)) = p') ∧
  (∀ id r, page_step p' (Ev (UploadSettled id r)) = p').
Proof.
  intros Ht. simpl. unfold setTab.
  rewrite decide_True by done. rewrite decide_False by done. simpl.
  split_and!; try done.
  all: intros id r; f_equal; handlers; simpl.
  all: rewrite decide_False; [done|].
  all: by intros [_ [? ?]]%map_lookup_filter_Some.
Qed.

Lemma switching_view_resets_panels_witness :
  let p := page_run (page_mount ∅ None) [Ev ClickSend; ClickTab tab_datos] in
  msgs (world p) = [] ∧ loading (world p) = false ∧
  page_step p (Ev (AskSettled 0 (Fulfilled {| answer := js "hola" |}))) = p.
Proof.
  assert (H : tab_datos ≠ tab (page_run (page_mount ∅ None) [Ev ClickSend]))
    by discriminate.
  destruct (switching_view_resets_panels
              (page_run (page_mount ∅ None) [Ev ClickSend]) tab_datos H)
    as (_ & _ & _ & Hm & Hl & _ & _ & _ & _ & _ & _ & _ & Ha & _).
  split; [exact Hm | split; [exact Hl | apply Ha]].
Defined.

Lemma ask_settled_absent (w : World) (id : nat) (r : Settled AskData) :
  inflight w !! id ≠ Some send_await → step w (AskSettled id r) = w.
Proof. intros Hid. handlers. simpl. by rewrite decide_False. Qed.

Lemma upload_settled_absent (w : World) (id : nat) (r : Settled UploadData) :
  inflight w !! id ≠ Some upload_await → step w (UploadSettled id r) = w.
Proof. intros Hid. handlers. simpl. by rewrite decide_False. Qed.

Lemma panel_handlers_from_step (n : nat) (w : World) (e : Event) :
  panel_handlers_from n w → panel_handlers_from n (step w e).
Proof.
  unfold panel_handlers_from. intros [Hn IH].
  destruct e; handlers; simpl; crunch; try done.
  all: rewrite ?length_app; simpl; split; [lia|]; intros id' Hid'.
  all: rewrite ?lookup_insert_ne by lia.
  all: try (by apply IH).
  all: destruct (IH id' Hid') as [H1 H2].
  all: split; intros Hx; apply lookup_delete_Some in Hx as [_ Hx]; auto.
Qed.

Lemma panel_handlers_from_remount (n : nat) (w : World) :
  panel_handlers_from n w → panel_handlers_from n (remount_panel w).
Proof.
  intros [Hn IH]. split; [done|]. intros id Hid. simpl.
  destruct (IH id Hid) as [H1 H2].
  split; intros [Hx _]%map_lookup_filter_Some; auto.
Qed.

Lemma panel_handlers_from_page_run (n : nat) (p : Page) (es : list PageEvent) :
  panel_handlers_from n (world p) → panel_handlers_from n (world (page_run p es)).
Proof.
  revert p. induction es as [|pe es IH]; intros p Hp; [done|].
  apply IH. destruct pe as [t | files | e]; simpl.
  - unfold setTab. case_decide; simpl; [done|].
    by apply panel_handlers_from_remount.
  - by case_decide.
  - destruct (enabled (tab p) e); simpl; [|done].
    by apply panel_handlers_from_step.
Qed.

(** X9. Whatever happens after a switch of view, switching back and asking
    or uploading again included, the answer to a question or an upload that
    was issued before the switch never reaches a panel. *)
Theorem answers_from_before_a_switch_are_dropped
    (p : Page) (t : Tab) (es : list PageEvent) (id : nat)
    (ra : Settled AskData) (ru : Settled UploadData) :
  t ≠ tab p →
  (id < length (sent (api (world p))))%nat →
  let p' := page_run (page_step p (ClickTab t)) es in
  page_step p' (Ev (AskSettled id ra)) = p' ∧
  page_step p' (Ev (UploadSettled id ru)) = p'.
Proof.
  intros Ht Hid.
  assert (Hj : panel_handlers_from (length (sent (api (world p))))
                 (world (page_run (page_step p (ClickTab t)) es))).
  { apply panel_handlers_from_page_run. simpl. unfold setTab.
    rewrite decide_False by done. simpl. split; [done|].
    intros i _. split; by intros [_ [? ?]]%map_lookup_filter_Some. }
  destruct Hj as [_ Hj]. destruct (Hj id Hid) as [Ha Hu].
  split; cbn [page_step enabled].
  - rewrite ask_settled_absent by done. apply page_eta.
  - rewrite upload_settled_absent by done. apply page_eta.
Qed.

Lemma answers_from_before_a_switch_are_dropped_witness :
  let p' := page_run (page_mount ∅ None)
              [Ev ClickSend; ClickTab tab_datos; ClickTab tab_chat;
               Ev (TypeQuestion (js "otra")); Ev ClickSend] in
  page_step p' (Ev (AskSettled 0 (Fulfilled {| answer := js "hola" |}))) = p'.
Proof.
  assert (H1 : tab_datos ≠ tab (page_run (page_mount ∅ None) [Ev ClickSend]))
    by discriminate.
  assert (H2 : (0 < length (sent (api (world
                   (page_run (page_mount ∅ None) [Ev ClickSend])))))%nat)
    by (vm_compute; lia).
  destruct (answers_from_before_a_switch_are_dropped
              (page_run (page_mount ∅ None) [Ev ClickSend]) tab_datos
              [ClickTab tab_chat; Ev (TypeQuestion (js "otra")); Ev ClickSend]
              0 (Fulfilled {| answer := js "hola" |}) (Rejected unauthorized)
              H1 H2) as [Ha _].
  exact Ha.
Defined.

(** ** What never changes *)

Lemma msgs_step_prefix (w : World) (e : Event) :
  msgs w `prefix_of` msgs (step w e).
Proof.
  destruct e; handlers; simpl; crunch; try done.
  all: by apply prefix_app_r.
Qed.

Lemma msgs_page_step_prefix (p : Page) (pe : PageEvent) :
  (∀ t, pe ≠ ClickTab t) →
  msgs (world p) `prefix_of` msgs (world (page_step p pe)).
Proof.
  intros Hpe. destruct pe as [t | files | e]; simpl.
  - by destruct (Hpe t).
  - by case_decide.
  - destruct (enabled (tab p) e); simpl; [apply msgs_step_prefix | done].
Qed.

(** X10. As long as the view is not switched, a message once shown stays
    where it is with the text it has: after any events the old list of
    messages is a prefix of the new one. *)
Theorem messages_are_only_appended (p : Page) (es : list PageEvent) :
  (∀ t, ClickTab t ∉ es) →
  msgs (world p) `prefix_of` msgs (world (page_run p es)).
Proof.
  revert p. induction es as [|pe es IH]; intros p Hes; [done|].
  simpl. etrans; [apply (msgs_page_step_prefix p pe) | apply IH].
  - intros t ->. apply (Hes t), list_elem_of_here.
  - intros t Ht. apply (Hes t). by apply list_elem_of_further.
Qed.

Lemma messages_are_only_appended_witness :
  msgs (world (page_mount ∅ None))
  `prefix_of` msgs (world (page_run (page_mount ∅ None)
                             [Ev ClickSend; Ev CallLogout; Ev Render])).
Proof.
  apply (messages_are_only_appended (page_mount ∅ None)
           [Ev ClickSend; Ev CallLogout; Ev Render]).
  intros t Ht. rewrite !elem_of_cons, elem_of_nil in Ht.
  destruct Ht as [Ht | [Ht | [Ht | []]]]; discriminate Ht.
Defined.

(** X11. The session and the panels do not touch each other's state: an
    event of a panel leaves token, user, storage and the client's
    authorization as they are, and an event of the session ([logout]
    included) leaves the question, the messages, [loading], the picked
    file, the status and the agent as they are. *)
Theorem session_and_panels_are_independent (w : World) (e : Event) :
  (panel_event e = true →
   token (step w e) = token w ∧ user (step w e) = user w ∧
   localStorage (step w e) = localStorage w ∧
   effect_deps (step w e) = effect_deps w ∧
   default_authorization (api (step w e)) = default_authorization (api w)) ∧
  (panel_event e = false →
   q (step w e) = q w ∧ msgs (step w e) = msgs w ∧
   loading (step w e) = loading w ∧ file (step w e) = file w ∧
   status (step w e) = status w ∧ agent (step w e) = agent w).
Proof.
  split; intros He; destruct e; try discriminate He.
  all: handlers; simpl; crunch; by split_and!.
Qed.

Lemma session_and_panels_are_independent_witness :
  msgs (step (step (mount ∅ None) ClickSend) CallLogout)
  = msgs (step (mount ∅ None) ClickSend).
Proof.
  destruct (session_and_panels_are_independent
              (step (mount ∅ None) ClickSend) CallLogout) as [_ H].
  destruct (H eq_refl) as (_ & Hm & _). exact Hm.
Defined.

(** ** More on the session *)

(** X12. A render runs the effect at most once per value of the token:
    rendering again without a change of the token issues no second
    identity request and changes nothing. *)
Theorem render_runs_effect_once (w : World) :
  step (step w Render) Render = step w Render ∧
  (effect_deps w = Some (token w) → step w Render = w).
Proof.
  assert (Hfix : ∀ v, effect_deps v = Some (token v) → step v Render = v).
  { intros v Hd. handlers. simpl. by rewrite decide_True. }
  split; [apply Hfix | apply Hfix].
  handlers. simpl.
  destruct (decide (effect_deps w = Some (token w))); simpl; [done|].
  by destruct (truthy_opt (token w)).
Qed.

Lemma render_runs_effect_once_witness :
  step (step (mount storage_abc None) Render) Render
  = step (mount storage_abc None) Render.
Proof.
  destruct (render_runs_effect_once (mount storage_abc None)) as [H _].
  exact H.
Defined.

(** X13. [logout] does not cancel a login that is in flight: when the
    token endpoint answers after the logout, the token is stored and set
    all the same, with no user. *)
Theorem logout_does_not_cancel_login (w : World) (id : nat) (data : LoginData) :
  inflight w !! id = Some login_await →
  let w' := step (step w CallLogout) (LoginSettled id (Fulfilled data)) in
  token w' = Some (access_token data) ∧
  localStorage w' !! js "token" = Some (access_token data) ∧
  user w' = None ∧
  session_state w' = Restoring.
Proof.
  intros Hid. handlers. unfold session_state. simpl.
  rewrite decide_True by done. simpl.
  split_and!; try done. apply lookup_insert_eq.
Qed.

Lemma logout_does_not_cancel_login_witness :
  token (run (mount ∅ None)
           [Render; CallLogin (js "alice") (js "pw1"); CallLogout;
            LoginSettled 0 (Fulfilled tok1)])
  = Some (js "tok1").
Proof.
  assert (H : inflight (run (mount ∅ None)
                          [Render; CallLogin (js "alice") (js "pw1")]) !! 0%nat
              = Some login_await) by reflexivity.
  destruct (logout_does_not_cancel_login _ 0 tok1 H) as [Ht _].
  exact Ht.
Defined.

(** X14. When two logins are in flight the one that is answered last
    decides: its token is the token state and the stored token, in
    whichever order the calls were made; and a rejection that comes after
    a success leaves the token of the success in place. *)
Theorem last_login_answer_wins
    (w : World) (i j : nat) (di dj : LoginData) (e : AxiosError) :
  i ≠ j →
  inflight w !! i = Some login_await →
  inflight w !! j = Some login_await →
  let both := step (step w (LoginSettled i (Fulfilled di)))
                (LoginSettled j (Fulfilled dj)) in
  let failed := step (step w (LoginSettled i (Fulfilled di)))
                  (LoginSettled j (Rejected e)) in
  token both = Some (access_token dj) ∧
  localStorage both !! js "token" = Some (access_token dj) ∧
  token failed = Some (access_token di) ∧
  localStorage failed !! js "token" = Some (access_token di).
Proof.
  intros Hij Hi Hj. handlers. simpl.
  destruct (decide (inflight w !! i = Some login_await)) as [_|]; [|done].
  simpl.
  rewrite !decide_True by (by rewrite lookup_delete_ne). simpl.
  split_and!; try done; apply lookup_insert_eq.
Qed.

Lemma last_login_answer_wins_witness :
  token (run (mount ∅ None)
           [CallLogin (js "alice") (js "pw1"); CallLogin (js "bob") (js "pw2");
            LoginSettled 1 (Fulfilled {| access_token := js "tokB" |});
            LoginSettled 0 (Fulfilled tok1)])
  = Some (js "tok1").
Proof.
  assert (H : (1 ≠ 0)%nat) by lia.
  destruct (last_login_answer_wins
              (run (mount ∅ None)
                 [CallLogin (js "alice") (js "pw1"); CallLogin (js "bob") (js "pw2")])
              1 0 {| access_token := js "tokB" |} tok1 unauthorized H)
    as [Ht _]; [reflexivity | reflexivity |].
  exact Ht.
Defined.

Lemma refresh_rejected_logs_out_witness :
  token (run (mount storage_abc None) [Render; MeSettled 0 (Rejected unauthorized)])
  = None.
Proof.
  assert (H : inflight (step (mount storage_abc None) Render) !! 0%nat
              = Some me_then_catch) by reflexivity.
  destruct (refresh_rejected_logs_out _ 0 unauthorized H) as [Ht _].
  exact Ht.
Defined.

(** ** The file input *)

(** X15. The file input keeps the first file of the dialog's list and
    nothing when the list is missing or empty; after such a change a click
    on upload sends nothing and keeps the status. *)
Theorem file_input_keeps_first_file (p : Page) (files : option (list File)) :
  tab p = tab_datos →
  let p' := page_step p (FilesChanged files) in
  file (world p') = files ≫= head ∧
  status (world p') = status (world p) ∧
  (files = None ∨ files = Some [] →
   file (world p') = None ∧ page_step p' (Ev ClickUpload) = p').
Proof.
  intros Ht. simpl. rewrite decide_True by done. simpl.
  split_and!; try done.
  intros Hf. assert (Hn : files ≫= head = None) by by destruct Hf as [-> | ->].
  split; [done|]. rewrite Ht. simpl. f_equal.
  handlers. simpl. by rewrite Hn.
Qed.

Lemma file_input_keeps_first_file_witness :
  let p := page_run (page_mount ∅ None) [ClickTab tab_datos] in
  file (world (page_step p (FilesChanged (Some [report; report])))) = Some report.
Proof.
  assert (H : tab (page_run (page_mount ∅ None) [ClickTab tab_datos]) = tab_datos)
    by reflexivity.
  destruct (file_input_keeps_first_file _ (Some [report; report]) H) as [Hf _].
  exact Hf.
Defined.

Lemma identity_implies_credential_step_witness :
  let w := run (mount storage_abc None) [Render; MeSettled 0 (Fulfilled alice)] in
  user (step w ClickSend) = Some alice ∧ token (step w ClickSend) ≠ None.
Proof.
  split; [reflexivity|].
  apply (identity_implies_credential_step
           (run (mount storage_abc None) [Render; MeSettled 0 (Fulfilled alice)])
           ClickSend).
  - intros id u. discriminate.
  - intros _. vm_compute. discriminate.
  - vm_compute. discriminate.
Defined.

(** X18. A login that is answered with the very token the effect last ran
    for stores and sets it, but the next render runs no effect: no
    identity request is issued and the user is left as it was. *)
Theorem login_with_current_token_issues_no_refresh
    (w : World) (id : nat) (data : LoginData) :
  inflight w !! id = Some login_await →
  effect_deps w = Some (Some (access_token data)) →
  let w' := step (step w (LoginSettled id (Fulfilled data))) Render in
  token w' = Some (access_token data) ∧
  localStorage w' !! js "token" = Some (access_token data) ∧
  sent (api w') = sent (api w) ∧
  default_authorization (api w') = default_authorization (api w) ∧
  user w' = user w.
Proof.
  intros Hid Hd. handlers. simpl.
  destruct (decide (inflight w !! id = Some login_await)) as [_|]; [|done].
  simpl. rewrite decide_True by done. simpl.
  split_and!; try done. apply lookup_insert_eq.
Qed.

Lemma login_with_current_token_issues_no_refresh_witness :
  let w := run (mount storage_abc None)
             [Render; MeSettled 0 (Fulfilled alice);
              CallLogin (js "alice") (js "pw1")] in
  sent (api (step (step w (LoginSettled 1 (Fulfilled {| access_token := js "abc" |})))
               Render))
  = sent (api w).
Proof.
  assert (H1 : inflight (run (mount storage_abc None)
                           [Render; MeSettled 0 (Fulfilled alice);
                            CallLogin (js "alice") (js "pw1")]) !! 1%nat
               = Some login_await) by reflexivity.
  assert (H2 : effect_deps (run (mount storage_abc None)
                              [Render; MeSettled 0 (Fulfilled alice);
                               CallLogin (js "alice") (js "pw1")])
               = Some (Some (access_token {| access_token := js "abc" |})))
    by reflexivity.
  destruct (login_with_current_token_issues_no_refresh _ 1
              {| access_token := js "abc" |} H1 H2) as (_ & _ & Hs & _).
  exact Hs.
Defined.
